(** * imessages_to_csv: text recovery from message rows

    A shallow embedding of [imessages_to_csv.py] and the properties of its
    classifier, normaliser, object-graph extractor, blob decoders and
    per-row resolver.

    Python strings are sequences of Unicode code points and are modelled
    as [list Z]; byte blobs are [list byte].  The calls into Foundation,
    [plistlib], [time] and the Unicode character database are the only
    parts not defined here: they are fields of the classes [UnicodeDB]
    and [Runtime], so every theorem holds for whatever those calls
    return. *)

From Stdlib Require Import ZArith List Bool Lia FunInd.
From Stdlib.Strings Require Import String Ascii Byte.
Import ListNotations.

#[local] Set Warnings "-register-all".

Local Open Scope Z_scope.

(** ** Python strings *)

Definition pystr := list Z.
Definition bytes := list byte.

(** A string literal, one code point per ASCII character. *)
Definition str (s : string) : pystr :=
  map (fun a => Z.of_nat (nat_of_ascii a)) (list_ascii_of_string s).

(** [len(s)] *)
Definition len (s : pystr) : nat := List.length s.

Definition LF : Z := 10.
Definition CR : Z := 13.

(** [str.isspace] on one character: the complete list of CPython's
    [_PyUnicode_IsWhitespace]. *)
Definition isspace_ch (c : Z) : bool :=
  ((9 <=? c) && (c <=? 13)) || ((28 <=? c) && (c <=? 32))
  || (c =? 133) || (c =? 160) || (c =? 5760)
  || ((8192 <=? c) && (c <=? 8202))
  || (c =? 8232) || (c =? 8233) || (c =? 8239) || (c =? 8287)
  || (c =? 12288).

(** The line boundaries of [str.splitlines]: U+000A..U+000D,
    U+001C..U+001E, U+0085, U+2028 and U+2029. *)
Definition is_linebreak (c : Z) : bool :=
  ((10 <=? c) && (c <=? 13)) || ((28 <=? c) && (c <=? 30))
  || (c =? 133) || (c =? 8232) || (c =? 8233).

(** [EMOJI_RE]: the character class U+1F300..U+1FAFF, U+2600..U+27BF. *)
Definition emoji_ch (c : Z) : bool :=
  ((127744 <=? c) && (c <=? 129791)) || ((9728 <=? c) && (c <=? 10175)).

(** [EMOJI_RE.search(s)] as a truth value. *)
Definition emoji_search (s : pystr) : bool := existsb emoji_ch s.

Fixpoint lstrip (s : pystr) : pystr :=
  match s with
  | [] => []
  | c :: r => if isspace_ch c then lstrip r else s
  end.

Definition rstrip (s : pystr) : pystr := rev (lstrip (rev s)).

(** [s.strip()] *)
Definition strip (s : pystr) : pystr := rstrip (lstrip s).

(** [s.replace(old, new)] for one-character [old] and [new]. *)
Definition replace_ch (old new : Z) (s : pystr) : pystr :=
  map (fun c => if c =? old then new else c) s.

(** [s.splitlines()]: lines without their terminators; \r\n is one
    terminator; no empty last line after a final terminator. *)
Function splitlines (s : pystr) {struct s} : list pystr :=
  match s with
  | [] => []
  | c :: r =>
      if is_linebreak c then
        if c =? CR then
          match r with
          | d :: r' => if d =? LF then [] :: splitlines r'
                       else [] :: splitlines r
          | [] => [] :: splitlines r
          end
        else [] :: splitlines r
      else
        match splitlines r with
        | [] => [[c]]
        | l :: ls => (c :: l) :: ls
        end
  end.

(** [sep.join(ls)] *)
Fixpoint join (sep : pystr) (ls : list pystr) : pystr :=
  match ls with
  | [] => []
  | l :: ls' =>
      match ls' with
      | [] => l
      | _ :: _ => l ++ sep ++ join sep ls'
      end
  end.

Fixpoint startswith (p s : pystr) : bool :=
  match p, s with
  | [], _ => true
  | _ :: _, [] => false
  | a :: p', b :: s' => (a =? b) && startswith p' s'
  end.

Definition endswith (p s : pystr) : bool := startswith (rev p) (rev s).

(** [p in s] for strings: [p] occurs as a contiguous substring. *)
Fixpoint contains (p s : pystr) : bool :=
  startswith p s ||
  match s with
  | [] => false
  | _ :: s' => contains p s'
  end.

(** ** Text Normalizer *)

Definition marker : pystr := Eval cbv in str "@NSAttributedString".
Definition ns_name : pystr := Eval cbv in str "NSAttributedString".
Definition langle : pystr := Eval cbv in str "<".
Definition rangle : pystr := Eval cbv in str ">".

(** Lines 26-27: carriage returns to newlines, every line stripped,
    rejoined with newlines. *)
Definition normalize_lines (s : pystr) : pystr :=
  join [LF] (map strip (splitlines (replace_ch CR LF s))).

(** The two tests of lines 29-30 ("strip obvious object dumps"). *)
Definition is_object_dump (s : pystr) : bool :=
  startswith marker s
  || (contains ns_name s && startswith langle s && endswith rangle s).

Definition clean_text (s : pystr) : pystr :=
  match s with
  | [] => []
  | _ :: _ =>
      let s := normalize_lines s in
      if startswith marker s then []
      else if contains ns_name s && startswith langle s && endswith rangle s
           then []
           else strip s
  end.

(** ** Unicode character database

    [str.isalpha] and [str.isdigit] consult CPython's [unicodedata]
    tables, which are not part of the program.  A table set gives the
    per-character answers together with the three facts about them that
    the proofs use.  [isdecimal_ch] (Numeric_Type=Decimal) is never called
    by the program; it is what "decimal digit" means in the statements
    about the classifier. *)

Class UnicodeDB := {
  (** [ch.isalpha()]: general category Lu, Ll, Lt, Lm or Lo *)
  isalpha_ch : Z -> bool;
  (** [ch.isdigit()]: Numeric_Type is Digit or Decimal *)
  isdigit_ch : Z -> bool;
  (** [ch.isdecimal()]: Numeric_Type is Decimal *)
  isdecimal_ch : Z -> bool;
  alpha_not_space : forall c, isalpha_ch c = true -> isspace_ch c = false;
  alpha_not_digit : forall c, isalpha_ch c = true -> isdigit_ch c = false;
  decimal_is_digit : forall c, isdecimal_ch c = true -> isdigit_ch c = true
}.

(** The tables for the blocks Basic Latin, Latin-1 Supplement and
    Dingbats, as CPython has them; characters of every other block are
    classed as neither letter nor digit.  Used to evaluate the program on
    concrete strings drawn from these blocks. *)
Definition latin_isalpha (c : Z) : bool :=
  ((65 <=? c) && (c <=? 90)) || ((97 <=? c) && (c <=? 122))
  || (c =? 170) || (c =? 181) || (c =? 186)
  || ((192 <=? c) && (c <=? 214)) || ((216 <=? c) && (c <=? 246))
  || ((248 <=? c) && (c <=? 255)).

Definition latin_isdecimal (c : Z) : bool := (48 <=? c) && (c <=? 57).

Definition latin_isdigit (c : Z) : bool :=
  ((48 <=? c) && (c <=? 57)) || (c =? 178) || (c =? 179) || (c =? 185)
  || ((10102 <=? c) && (c <=? 10110)) || ((10112 <=? c) && (c <=? 10120))
  || ((10122 <=? c) && (c <=? 10130)).

(** ** Decoded object graph

    What [NSKeyedUnarchiver] hands back, by the class tests the program
    makes with [isKindOfClass_]: an attributed string (with the value of
    [string()]), a string, a dictionary (its entries in [allKeys()] order,
    each key with its [objectForKey_] value), an array, any other object
    (NSNumber, NSData, NSURL, NSDate, NSUUID, ...), or Python's [None]. *)
Inductive node : Type :=
  | PyNone
  | NSAttributedString (string_ : pystr)
  | NSString (s : pystr)
  | NSDictionary (entries : list (node * node))
  | NSArray (items : list node)
  | NSObject.

Definition is_None (o : node) : bool :=
  match o with PyNone => true | _ => false end.

(** A property list as [plistlib.loads] returns it: [str], [bytes],
    [dict] (in iteration order), [list], or a scalar of another type
    (int, float, bool, datetime, UID). *)
Inductive plist : Type :=
  | PStr (s : pystr)
  | PBytes (b : bytes)
  | PDict (entries : list (pystr * plist))
  | PList (items : list plist)
  | PScalar.

Inductive NSError : Type := NSError_code (code : Z).

(** Outcome of one [NSKeyedUnarchiver] call: an exception, or the pair
    [(obj, err)]. *)
Inductive unarchive_outcome : Type :=
  | UnarchiveRaised
  | Unarchived (obj : node) (err : option NSError).

(** The two unarchiver entry points the program calls. *)
Inductive unarchiver : Type :=
  | Secure   (** [unarchivedObjectOfClasses_fromData_error_] with the allow-list *)
  | Legacy.  (** [unarchiveTopLevelObjectWithData_error_] *)

(** Library calls of the program.  [plistlib_loads] is [None] when
    [plistlib.loads] raises. *)
Class Runtime := {
  unarchive : unarchiver -> bytes -> unarchive_outcome;
  plistlib_loads : bytes -> option plist;
  decode_utf8_ignore : bytes -> pystr;
  strftime_gmtime : Z -> pystr
}.

(** Computations that record which unarchiver calls they made, in
    order. *)
Definition traced (A : Type) : Type := (A * list unarchiver)%type.

Definition ret {A} (a : A) : traced A := (a, []).

Definition bind {A B} (m : traced A) (k : A -> traced B) : traced B :=
  let (a, t1) := m in let (b, t2) := k a in (b, t1 ++ t2).

Definition value {A} (m : traced A) : A := fst m.
Definition calls {A} (m : traced A) : list unarchiver := snd m.

Notation "x <- m ;; k" := (bind m (fun x => k))
  (at level 61, m at next level, right associativity).

Definition or_empty (s : option pystr) : pystr :=
  match s with Some s => s | None => [] end.

(** Truth value of a nullable string: [None] and the empty string are
    false. *)
Definition truthy_str (s : option pystr) : bool :=
  match s with
  | Some (_ :: _) => true
  | _ => false
  end.

(** Truth value of a nullable integer: [None] and 0 are false. *)
Definition truthy_int (z : option Z) : bool :=
  match z with
  | Some z => negb (z =? 0)
  | None => false
  end.

Section Program.

Context {U : UnicodeDB} {R : Runtime}.

(** ** Text Classifier *)

(** [s.isdigit()] *)
Definition str_isdigit (s : pystr) : bool :=
  match s with
  | [] => false
  | _ :: _ => forallb isdigit_ch s
  end.

Definition is_humanish (s : pystr) : bool :=
  match s with
  | [] => false
  | _ :: _ =>
      let s := strip s in
      match s with
      | [] => false
      | _ :: _ =>
          if str_isdigit s then false
          else if existsb isalpha_ch s then true
          else if emoji_search s then true
          else false
      end
  end.

(** ** Rich-Object String Extractor *)

Fixpoint first_string_from (obj : node) : pystr :=
  match obj with
  | PyNone => []
  | NSAttributedString s => s
  | NSString s => s
  | NSDictionary entries =>
      (fix scan (kvs : list (node * node)) : pystr :=
         match kvs with
         | [] => []
         | (_, v) :: rest =>
             let s := first_string_from v in
             if is_humanish s then s else scan rest
         end) entries
  | NSArray items =>
      (fix scan (xs : list node) : pystr :=
         match xs with
         | [] => []
         | x :: rest =>
             let s := first_string_from x in
             if is_humanish s then s else scan rest
         end) items
  | NSObject => []
  end.

(** The update of [best] at one node (line 64). *)
Definition keep_longer (best s : pystr) : pystr :=
  if is_humanish s && (len best <? len s)%nat then s else best.

(** The inner function [walk]; the [nonlocal best] is threaded through. *)
Fixpoint walk (o : node) (best : pystr) : pystr :=
  let best := keep_longer best (first_string_from o) in
  match o with
  | NSDictionary entries =>
      (fix loop (kvs : list (node * node)) (best : pystr) : pystr :=
         match kvs with
         | [] => best
         | (_, v) :: rest => loop rest (walk v best)
         end) entries best
  | NSArray items =>
      (fix loop (xs : list node) (best : pystr) : pystr :=
         match xs with
         | [] => best
         | x :: rest => loop rest (walk x best)
         end) items best
  | _ => best
  end.

Definition best_string_from (obj : node) : pystr :=
  clean_text (walk obj []).

(** ** Binary decoders *)

Definition invoke (u : unarchiver) (data : bytes) : traced unarchive_outcome :=
  (unarchive u data, [u]).

Definition decode_attr (blob : option bytes) : traced pystr :=
  match blob with
  | None | Some [] => ret []
  | Some data =>
      let legacy :=
        out <- invoke Legacy data ;;
        match out with
        | Unarchived obj None =>
            if is_None obj then ret []
            else let s := best_string_from obj in
                 ret (if is_humanish s then s else [])
        | _ => ret []
        end in
      out <- invoke Secure data ;;
      match out with
      | Unarchived obj None =>
          if is_None obj then legacy
          else let s := best_string_from obj in
               ret (if is_humanish s then s else [])
      | _ => legacy
      end
  end.

Fixpoint pull (x : plist) : pystr :=
  match x with
  | PStr s =>
      let x := clean_text s in if is_humanish x then x else []
  | PBytes b =>
      let s := clean_text (decode_utf8_ignore b) in
      if is_humanish s then s else []
  | PDict entries =>
      (fix scan (kvs : list (pystr * plist)) : pystr :=
         match kvs with
         | [] => []
         | (_, v) :: rest =>
             match pull v with
             | [] => scan rest
             | s => s
             end
         end) entries
  | PList items =>
      (fix scan (xs : list plist) : pystr :=
         match xs with
         | [] => []
         | v :: rest =>
             match pull v with
             | [] => scan rest
             | s => s
             end
         end) items
  | PScalar => []
  end.

Definition decode_summary (blob : option bytes) : pystr :=
  match blob with
  | None | Some [] => []
  | Some data =>
      match plistlib_loads data with
      | None => []
      | Some obj => let s := pull obj in if is_humanish s then s else []
      end
  end.

(** ** Row Resolver and timestamp *)

(** One row of the query [Q]; every column is nullable. *)
Record Row := {
  chat_guid : option pystr;
  chat_name : option pystr;
  sender_or_chat_id : option pystr;
  from_me : option Z;
  ts_unix : option Z;
  text_plain : option pystr;
  attr_blob : option bytes;
  summary_blob : option bytes;
  assoc_guid : option pystr;
  assoc_type : option Z;
  has_attach : option Z
}.

(** One line of the output, in header order. *)
Record Resolved := {
  out_chat_guid : pystr;
  out_chat_name : pystr;
  out_sender_or_chat_id : pystr;
  role : pystr;
  out_from_me : option Z;
  timestamp_utc : pystr;
  text_full : pystr;
  source : pystr
}.

(** The CASE expression of the query (lines 148-152) on [m.date];
    [/] on SQLite integers truncates. *)
Definition ts_unix_case (date : option Z) : option Z :=
  match date with
  | None => None
  | Some d =>
      if 1000000000000 <? d then Some (Z.quot d 1000000000 + 978307200)
      else if 0 <? d then Some (d + 978307200)
      else None
  end.

(** Line 197. *)
Definition format_ts (ts : option Z) : pystr :=
  match ts with
  | None => []
  | Some t => if t =? 0 then [] else strftime_gmtime t
  end.

(** Line 198. *)
Definition role_of (from_me : option Z) : pystr :=
  match from_me with
  | Some 1 => str "me"
  | _ => str "other"
  end.

(** The body of the [for] loop of [main] (lines 172-209): [None] is
    [continue], [Some] is the row handed to [writerow]. *)
Definition resolve (r : Row) : option Resolved :=
  if truthy_str (assoc_guid r) then None
  else
    let txt := clean_text (or_empty (text_plain r)) in
    let source := if is_humanish txt then str "text" else [] in
    let '(txt, source) :=
      match source with
      | [] =>
          match value (decode_attr (attr_blob r)) with
          | [] => (txt, source)
          | t2 => (t2, str "attributedBody")
          end
      | _ => (txt, source)
      end in
    let '(txt, source) :=
      match source with
      | [] =>
          match decode_summary (summary_blob r) with
          | [] => (txt, source)
          | t3 => (t3, str "message_summary_info")
          end
      | _ => (txt, source)
      end in
    if negb (is_humanish txt) then None
    else
      Some {| out_chat_guid := or_empty (chat_guid r);
              out_chat_name := or_empty (chat_name r);
              out_sender_or_chat_id := or_empty (sender_or_chat_id r);
              role := role_of (from_me r);
              out_from_me := from_me r;
              timestamp_utc := format_ts (ts_unix r);
              text_full := txt;
              source := source |}.

(** All rows of the query, in order. *)
Definition export (rows : list Row) : list Resolved :=
  flat_map (fun r => match resolve r with Some o => [o] | None => [] end) rows.

(** ** Notions used to state the properties *)




(** The classifier as the specification words it: empty or all
    whitespace is rejected, then a string of decimal digits only (after
    trimming) is rejected, then any letter accepts, and otherwise an
    emoji-range character decides. *)
Definition is_humanish_by_decimal (s : pystr) : bool :=
  if forallb isspace_ch s then false
  else if forallb isdecimal_ch (strip s) then false
  else if existsb isalpha_ch s then true
  else existsb emoji_ch s.

(** The same with "digits" read as [str.isdigit] reads them. *)
Definition is_humanish_by_digit (s : pystr) : bool :=
  if forallb isspace_ch s then false
  else if forallb isdigit_ch (strip s) then false
  else if existsb isalpha_ch s then true
  else existsb emoji_ch s.

(** Attempt 1 of [decode_attr] yields a string that passes the
    classifier. *)
Definition secure_usable (data : bytes) : bool :=
  match unarchive Secure data with
  | Unarchived obj None =>
      negb (is_None obj) && is_humanish (best_string_from obj)
  | _ => false
  end.

(** Attempt 1 of [decode_attr] deserialized an object without error. *)
Definition secure_decoded (data : bytes) : bool :=
  match unarchive Secure data with
  | Unarchived obj None => negb (is_None obj)
  | _ => false
  end.

End Program.

(** ** A runtime to evaluate the program on

    Three one-byte "archives", two "property lists", UTF-8 decoding of
    ASCII bytes (any other byte is ignored), and
    [time.strftime("%Y-%m-%d %H:%M:%S", time.gmtime(t))] computed from the
    proleptic Gregorian calendar. *)

Definition digits2 (n : Z) : pystr := [48 + n / 10 mod 10; 48 + n mod 10].

Definition digits4 (n : Z) : pystr := digits2 (n / 100) ++ digits2 (n mod 100).

Definition gmtime_string (t : Z) : pystr :=
  let z := t / 86400 + 719468 in
  let secs := t mod 86400 in
  let era := z / 146097 in
  let doe := z - era * 146097 in
  let yoe := (doe - doe / 1460 + doe / 36524 - doe / 146096) / 365 in
  let doy := doe - (365 * yoe + yoe / 4 - yoe / 100) in
  let mp := (5 * doy + 2) / 153 in
  let d := doy - (153 * mp + 2) / 5 + 1 in
  let m := if mp <? 10 then mp + 3 else mp - 9 in
  let y := yoe + era * 400 + (if m <=? 2 then 1 else 0) in
  digits4 y ++ str "-" ++ digits2 m ++ str "-" ++ digits2 d ++ str " "
  ++ digits2 (secs / 3600) ++ str ":" ++ digits2 (secs / 60 mod 60)
  ++ str ":" ++ digits2 (secs mod 60).

Definition demo_unarchive (u : unarchiver) (data : bytes) : unarchive_outcome :=
  match data with
  | [x01] => Unarchived (NSString (str "12")) None
  | [x02] =>
      Unarchived (NSArray [NSString (str "42"); NSString (str "ok thanks")]) None
  | [x03] =>
      match u with
      | Secure => Unarchived PyNone (Some (NSError_code 4864))
      | Legacy => Unarchived (NSAttributedString (str "from the old archive")) None
      end
  | _ => UnarchiveRaised
  end.

Definition demo_plistlib_loads (data : bytes) : option plist :=
  match data with
  | [x10] => Some (PDict [(str "caption", PStr (str "See this link"))])
  | [x11] => Some (PList [PScalar; PStr (str "2024")])
  | _ => None
  end.

Definition demo_runtime : Runtime :=
  {| unarchive := demo_unarchive;
     plistlib_loads := demo_plistlib_loads;
     decode_utf8_ignore :=
       flat_map (fun b => let c := Z.of_N (Byte.to_N b) in
                          if c <? 128 then [c] else []);
     strftime_gmtime := gmtime_string |}.

Definition blank_row : Row :=
  {| chat_guid := None; chat_name := None; sender_or_chat_id := None;
     from_me := Some 0; ts_unix := None; text_plain := None;
     attr_blob := None; summary_blob := None; assoc_guid := None;
     assoc_type := Some 0; has_attach := Some 0 |}.

(** [blank_row] with the columns that matter to the resolver set. *)
Definition row_with (guid text : option pystr) (attr summary : option bytes)
    (me : option Z) (ts : option Z) : Row :=
  {| chat_guid := chat_guid blank_row; chat_name := chat_name blank_row;
     sender_or_chat_id := sender_or_chat_id blank_row;
     from_me := me; ts_unix := ts; text_plain := text;
     attr_blob := attr; summary_blob := summary; assoc_guid := guid;
     assoc_type := assoc_type blank_row; has_attach := has_attach blank_row |}.

(** ** Notions used in the proofs *)

(** No whitespace at the front. *)
Definition starts_clean (s : pystr) : Prop :=
  match s with
  | [] => True
  | c :: _ => isspace_ch c = false
  end.

(** No whitespace at either end. *)
Definition stripped (s : pystr) : Prop :=
  starts_clean s /\ starts_clean (rev s).

(** No line boundary occurs in the string. *)
Definition one_line (l : pystr) : Prop :=
  forallb (fun c => negb (is_linebreak c)) l = true.

Fixpoint drop_empty (L : list pystr) : list pystr :=
  match L with
  | [] :: L' => drop_empty L'
  | _ => L
  end.

(** The lines without the empty ones at both ends. *)
Definition trim (L : list pystr) : list pystr :=
  rev (drop_empty (rev (drop_empty L))).

(** The list does not end with an empty line. *)
Definition ends_nonempty (L : list pystr) : Prop :=
  forall M, L <> M ++ [[]].

(** The lines that [normalize_lines] joins. *)
Definition stripped_lines (s : pystr) : list pystr :=
  map strip (splitlines (replace_ch CR LF s)).

(** A text in the form [clean_text] produces: boundary-free stripped
    lines joined by newlines, the last one not empty, and no whitespace
    around the whole. *)
Definition canonical (r : pystr) (L : list pystr) : Prop :=
  Forall one_line L /\ Forall stripped L /\ ends_nonempty L
  /\ r = join [LF] L /\ strip r = r.


Definition latin_tables : UnicodeDB :=
  {| isalpha_ch := latin_isalpha;
     isdigit_ch := latin_isdigit;
     isdecimal_ch := latin_isdecimal;
     alpha_not_space :=
       fun c => ltac:(unfold latin_isalpha, isspace_ch; lia);
     alpha_not_digit :=
       fun c => ltac:(unfold latin_isalpha, latin_isdigit; lia);
     decimal_is_digit :=
       fun c => ltac:(unfold latin_isdecimal, latin_isdigit; lia) |}.

(** Induction on object graphs, with the hypothesis available for every
    dictionary value and array element. *)
Section NodeInduction.

Variable P : node -> Prop.
Hypothesis HNone : P PyNone.
Hypothesis HAttr : forall s, P (NSAttributedString s).
Hypothesis HStr : forall s, P (NSString s).
Hypothesis HDict :
  forall entries, Forall (fun kv => P (snd kv)) entries -> P (NSDictionary entries).
Hypothesis HArr : forall items, Forall P items -> P (NSArray items).
Hypothesis HObj : P NSObject.


End NodeInduction.

(** ** Notions used for the further properties *)

(** The characters of a string that are not whitespace, in order. *)
Definition ink (s : pystr) : pystr :=
  filter (fun c => negb (isspace_ch c)) s.


(** The first element that passes the test, or the empty string. *)
Definition first_or_empty (f : pystr -> bool) (l : list pystr) : pystr :=
  match find f l with
  | Some s => s
  | None => []
  end.

Section PlistInduction.

Variable P : plist -> Prop.
Hypothesis HStr : forall s, P (PStr s).
Hypothesis HBytes : forall b, P (PBytes b).
Hypothesis HDict :
  forall entries, Forall (fun kv => P (snd kv)) entries -> P (PDict entries).
Hypothesis HList : forall items, Forall P items -> P (PList items).
Hypothesis HScalar : P PScalar.

Fixpoint plist_induction (x : plist) : P x :=
  match x with
  | PStr s => HStr s
  | PBytes b => HBytes b
  | PDict entries =>
      HDict entries
        ((fix all (kvs : list (pystr * plist)) : Forall (fun kv => P (snd kv)) kvs :=
            match kvs with
            | [] => Forall_nil _
            | kv :: rest => Forall_cons kv (plist_induction (snd kv)) (all rest)
            end) entries)
  | PList items =>
      HList items
        ((fix all (xs : list plist) : Forall P xs :=
            match xs with
            | [] => Forall_nil _
            | v :: rest => Forall_cons v (plist_induction v) (all rest)
            end) items)
  | PScalar => HScalar
  end.

End PlistInduction.

Section Texts.

Context {U : UnicodeDB} {R : Runtime}.

(** The cleaned texts of the string and bytes leaves of a property list,
    in iteration order. *)
Fixpoint plist_texts (x : plist) : list pystr :=
  match x with
  | PStr s => [clean_text s]
  | PBytes b => [clean_text (decode_utf8_ignore b)]
  | PDict entries => flat_map (fun kv => plist_texts (snd kv)) entries
  | PList items => flat_map plist_texts items
  | PScalar => []
  end.

End Texts.

Section FirstFound.

Context {U : UnicodeDB}.


End FirstFound.

Section Emit.

Context {R : Runtime}.

(** The record lines 200-209 write for a row, given the text and the
    source tag chosen for it. *)
Definition emit (r : Row) (txt src : pystr) : Resolved :=
  {| out_chat_guid := or_empty (chat_guid r);
     out_chat_name := or_empty (chat_name r);
     out_sender_or_chat_id := or_empty (sender_or_chat_id r);
     role := role_of (from_me r);
     out_from_me := from_me r;
     timestamp_utc := format_ts (ts_unix r);
     text_full := txt;
     source := src |}.

End Emit.

(** * Proofs *)


(** * Facts about the string primitives *)

Section StringFacts.

Lemma linebreak_isspace c : is_linebreak c = true -> isspace_ch c = true.
Proof. unfold is_linebreak, isspace_ch. lia. Qed.

Lemma LF_linebreak : is_linebreak LF = true.
Proof. reflexivity. Qed.

(** [lstrip] removes a prefix of whitespace and nothing else. *)
Lemma lstrip_split s :
  exists p, s = p ++ lstrip s /\ forallb isspace_ch p = true.
Proof.
  induction s as [|c r [p [E Hp]]]; simpl.
  - exists []. split; reflexivity.
  - destruct (isspace_ch c) eqn:Hc.
    + exists (c :: p). simpl. rewrite Hc, Hp. split; [now f_equal|reflexivity].
    + exists []. split; reflexivity.
Qed.

Lemma lstrip_starts_clean s : starts_clean (lstrip s).
Proof.
  induction s as [|c r IH]; simpl; [exact I|].
  destruct (isspace_ch c) eqn:Hc; [exact IH|exact Hc].
Qed.

Lemma lstrip_fixed s : starts_clean s -> lstrip s = s.
Proof. destruct s as [|c r]; simpl; [reflexivity|]. now intros ->. Qed.

Lemma lstrip_fixed_inv s : lstrip s = s -> starts_clean s.
Proof. intros E. rewrite <- E. apply lstrip_starts_clean. Qed.

Lemma lstrip_all_space s : forallb isspace_ch s = true -> lstrip s = [].
Proof.
  induction s as [|c r IH]; simpl; [reflexivity|].
  intros H. apply andb_true_iff in H as [-> H]. now apply IH.
Qed.


Lemma rstrip_split s :
  exists q, s = rstrip s ++ q /\ forallb isspace_ch q = true.
Proof.
  unfold rstrip. destruct (lstrip_split (rev s)) as [p [E Hp]].
  exists (rev p). split.
  - rewrite <- rev_app_distr, <- E. now rewrite rev_involutive.
  - rewrite forallb_forall in *. intros x Hx. apply Hp. now apply in_rev.
Qed.


Lemma starts_clean_prefix a b : starts_clean (a ++ b) -> starts_clean a.
Proof. destruct a; simpl; auto. Qed.

Lemma strip_stripped s : stripped (strip s).
Proof.
  unfold stripped, strip. split.
  - destruct (rstrip_split (lstrip s)) as [q [E _]].
    apply starts_clean_prefix with (b := q). rewrite <- E.
    apply lstrip_starts_clean.
  - unfold rstrip. rewrite rev_involutive. apply lstrip_starts_clean.
Qed.

Lemma strip_fixed s : stripped s -> strip s = s.
Proof.
  intros [H1 H2]. unfold strip, rstrip.
  rewrite (lstrip_fixed s H1), (lstrip_fixed _ H2). apply rev_involutive.
Qed.

Lemma strip_idempotent s : strip (strip s) = strip s.
Proof. apply strip_fixed, strip_stripped. Qed.

Lemma strip_split s :
  exists p q, s = p ++ strip s ++ q
              /\ forallb isspace_ch p = true /\ forallb isspace_ch q = true.
Proof.
  destruct (lstrip_split s) as [p [E Hp]].
  destruct (rstrip_split (lstrip s)) as [q [E' Hq]].
  exists p, q. unfold strip. rewrite <- E', <- E. auto.
Qed.

Lemma strip_all_space s : forallb isspace_ch s = true -> strip s = [].
Proof. intros H. unfold strip. now rewrite lstrip_all_space. Qed.

Lemma strip_nil_all_space s : strip s = [] -> forallb isspace_ch s = true.
Proof.
  intros E. destruct (strip_split s) as [p [q [Es [Hp Hq]]]].
  rewrite E in Es. simpl in Es. rewrite Es, forallb_app, Hp, Hq. reflexivity.
Qed.

End StringFacts.


Section LineFacts.

Lemma one_line_cons c l :
  one_line (c :: l) <-> is_linebreak c = false /\ one_line l.
Proof.
  unfold one_line. simpl. rewrite andb_true_iff, negb_true_iff. tauto.
Qed.

Lemma one_line_app a b : one_line (a ++ b) <-> one_line a /\ one_line b.
Proof. unfold one_line. rewrite forallb_app, andb_true_iff. tauto. Qed.

Lemma one_line_rev l : one_line l -> one_line (rev l).
Proof.
  unfold one_line. rewrite !forallb_forall. intros H x Hx.
  apply H. now apply in_rev.
Qed.

Lemma splitlines_one_line s : Forall one_line (splitlines s).
Proof.
  functional induction (splitlines s); try (constructor; [reflexivity|assumption]).
  - constructor.
  - constructor; [|constructor]. apply one_line_cons. split; [assumption|reflexivity].
  - rewrite e1 in IHl. inversion IHl; subst.
    constructor; [|assumption]. apply one_line_cons. now split.
Qed.

Lemma splitlines_line l rest :
  one_line l -> splitlines (l ++ LF :: rest) = l :: splitlines rest.
Proof.
  induction l as [|c l IH]; intros H.
  - reflexivity.
  - apply one_line_cons in H as [Hc Hl]. simpl.
    rewrite Hc, (IH Hl). reflexivity.
Qed.

Lemma splitlines_single l : one_line l -> l <> [] -> splitlines l = [l].
Proof.
  induction l as [|c l IH]; intros H Hne; [congruence|].
  apply one_line_cons in H as [Hc Hl]. simpl. rewrite Hc.
  destruct l as [|d l']; [reflexivity|].
  rewrite IH by (assumption || discriminate). reflexivity.
Qed.


(** ** join *)

Lemma join_cons sep l L :
  L <> [] -> join sep (l :: L) = l ++ sep ++ join sep L.
Proof. destruct L; [congruence|reflexivity]. Qed.

Lemma join_snoc sep L l :
  L <> [] -> join sep (L ++ [l]) = join sep L ++ sep ++ l.
Proof.
  induction L as [|a L IH]; intros Hne; [congruence|].
  destruct L as [|b L'].
  - reflexivity.
  - change ((a :: b :: L') ++ [l]) with (a :: ((b :: L') ++ [l])).
    rewrite join_cons by discriminate.
    rewrite IH by discriminate.
    rewrite (join_cons sep a (b :: L')) by discriminate.
    now rewrite <- !app_assoc.
Qed.

Lemma rev_join L : rev (join [LF] L) = join [LF] (map (@rev Z) (rev L)).
Proof.
  induction L as [|a L IH]; [reflexivity|].
  destruct L as [|b L'].
  - reflexivity.
  - rewrite join_cons by discriminate.
    rewrite !rev_app_distr, IH.
    change (rev (a :: b :: L')) with (rev (b :: L') ++ [a]).
    rewrite map_app.
    change (map (@rev Z) [a]) with [rev a].
    rewrite join_snoc.
    + now rewrite <- app_assoc.
    + simpl. intros E. apply map_eq_nil in E.
      now apply app_eq_nil in E as [_ E].
Qed.

Lemma join_one_line_no_CR L :
  Forall one_line L -> ~ In CR (join [LF] L).
Proof.
  induction 1 as [|l L Hl HL IH]; [intros []|].
  assert (Hn : ~ In CR l).
  { intros Hin. unfold one_line in Hl. rewrite forallb_forall in Hl.
    specialize (Hl _ Hin). discriminate. }
  destruct L as [|b L']; [exact Hn|].
  rewrite join_cons by discriminate.
  rewrite !in_app_iff. intros [Hin|[Hin|Hin]]; auto.
  destruct Hin as [E|[]]. discriminate.
Qed.

Lemma replace_ch_absent old new s :
  ~ In old s -> replace_ch old new s = s.
Proof.
  induction s as [|c s IH]; intros H; [reflexivity|]. simpl.
  rewrite IH by (intros Hin; apply H; now right).
  destruct (Z.eqb_spec c old) as [->|]; [|reflexivity].
  exfalso. apply H. now left.
Qed.

Lemma replace_ch_removes old new s :
  old <> new -> ~ In old (replace_ch old new s).
Proof.
  intros Hne. induction s as [|c s IH]; [intros []|]. simpl.
  intros [E|Hin]; [|now apply IH].
  destruct (Z.eqb_spec c old); congruence.
Qed.

(** ** Empty lines at the ends *)

Lemma drop_empty_head L X : drop_empty L <> [] :: X.
Proof.
  induction L as [|l L IH]; [discriminate|].
  destruct l; [exact IH|discriminate].
Qed.

Lemma drop_empty_suffix L : exists P, L = P ++ drop_empty L.
Proof.
  induction L as [|l L [P E]]; [now exists []|].
  destruct l.
  - exists ([] :: P). simpl. now f_equal.
  - now exists [].
Qed.

Lemma drop_empty_Forall (Q : pystr -> Prop) L :
  Forall Q L -> Forall Q (drop_empty L).
Proof.
  intros H. destruct (drop_empty_suffix L) as [P E].
  rewrite E in H. now apply Forall_app in H as [_ H].
Qed.

Lemma drop_empty_map_rev L :
  drop_empty (map (@rev Z) L) = map (@rev Z) (drop_empty L).
Proof.
  induction L as [|l L IH]; [reflexivity|].
  destruct l as [|c l]; [exact IH|].
  simpl. destruct (rev l ++ [c]) eqn:E; [|reflexivity].
  now apply app_eq_nil in E as [_ E].
Qed.

Lemma trim_Forall (Q : pystr -> Prop) L : Forall Q L -> Forall Q (trim L).
Proof.
  intros H. unfold trim. apply Forall_rev, drop_empty_Forall, Forall_rev.
  now apply drop_empty_Forall.
Qed.

Lemma trim_ends_nonempty L : ends_nonempty (trim L).
Proof.
  unfold trim. intros M E.
  apply (f_equal (@rev pystr)) in E.
  rewrite rev_involutive, rev_app_distr in E. simpl in E.
  now apply drop_empty_head in E.
Qed.

Lemma ends_nonempty_tail l L : L <> [] -> ends_nonempty (l :: L) -> ends_nonempty L.
Proof. intros _ H M E. apply (H (l :: M)). now rewrite E. Qed.

Lemma splitlines_join L :
  Forall one_line L -> ends_nonempty L -> splitlines (join [LF] L) = L.
Proof.
  induction 1 as [|l L Hl HL IH]; intros He; [reflexivity|].
  destruct L as [|b L'].
  - simpl. apply splitlines_single; [assumption|].
    intros ->. now apply (He []).
  - rewrite join_cons by discriminate.
    change ([LF] ++ join [LF] (b :: L')) with (LF :: join [LF] (b :: L')).
    rewrite splitlines_line by assumption.
    f_equal. apply IH. eapply ends_nonempty_tail; [discriminate|eassumption].
Qed.

Lemma join_lines_splitlines L :
  Forall one_line L -> ends_nonempty L -> join [LF] (splitlines (join [LF] L)) = join [LF] L.
Proof. intros. now rewrite splitlines_join. Qed.

(** ** strip over joined lines *)

Lemma lstrip_join L :
  Forall starts_clean L -> lstrip (join [LF] L) = join [LF] (drop_empty L).
Proof.
  induction 1 as [|l L Hl HL IH]; [reflexivity|].
  destruct l as [|c l].
  - destruct L as [|b L']; [reflexivity|].
    rewrite join_cons by discriminate. simpl app.
    change (lstrip (LF :: join [LF] (b :: L'))) with (lstrip (join [LF] (b :: L'))).
    exact IH.
  - simpl drop_empty. apply lstrip_fixed.
    destruct L as [|b L']; [exact Hl|].
    rewrite join_cons by discriminate. exact Hl.
Qed.

Lemma rstrip_join L :
  Forall (fun l => starts_clean (rev l)) L ->
  rstrip (join [LF] L) = join [LF] (rev (drop_empty (rev L))).
Proof.
  intros H. unfold rstrip. rewrite rev_join, lstrip_join.
  - rewrite rev_join, drop_empty_map_rev, <- map_rev, map_map.
    rewrite (map_ext _ (fun x => x)) by apply rev_involutive.
    now rewrite map_id.
  - apply Forall_map, Forall_rev. exact H.
Qed.

Lemma strip_join L :
  Forall stripped L -> strip (join [LF] L) = join [LF] (trim L).
Proof.
  intros H. unfold strip, trim.
  rewrite lstrip_join, rstrip_join; [reflexivity| |].
  - apply drop_empty_Forall. eapply Forall_impl; [|exact H]. now intros l [_ ?].
  - eapply Forall_impl; [|exact H]. now intros l [? _].
Qed.

End LineFacts.


Section NormalizerFacts.

Lemma strip_one_line l : one_line l -> one_line (strip l).
Proof.
  intros H. destruct (strip_split l) as [p [q [E _]]].
  rewrite E in H. apply one_line_app in H as [_ H].
  now apply one_line_app in H as [H _].
Qed.



Lemma stripped_lines_one_line s : Forall one_line (stripped_lines s).
Proof.
  unfold stripped_lines. apply Forall_map.
  eapply Forall_impl; [|apply splitlines_one_line].
  intros l. apply strip_one_line.
Qed.

Lemma stripped_lines_stripped s : Forall stripped (stripped_lines s).
Proof.
  unfold stripped_lines. apply Forall_map, Forall_forall.
  intros l _. apply strip_stripped.
Qed.

Lemma canonical_nil : canonical [] [].
Proof.
  repeat split; try constructor.
  intros M E. symmetry in E. now apply app_eq_nil in E as [_ E].
Qed.

Lemma clean_text_canonical s : exists L, canonical (clean_text s) L.
Proof.
  destruct s as [|c s]; [exists []; apply canonical_nil|].
  unfold clean_text.
  set (t := normalize_lines (c :: s)).
  destruct (startswith marker t); [exists []; apply canonical_nil|].
  destruct (contains ns_name t && startswith langle t && endswith rangle t);
    [exists []; apply canonical_nil|].
  exists (trim (stripped_lines (c :: s))).
  repeat split.
  - apply trim_Forall, stripped_lines_one_line.
  - apply trim_Forall, stripped_lines_stripped.
  - apply trim_ends_nonempty.
  - subst t. unfold normalize_lines. fold (stripped_lines (c :: s)).
    apply strip_join, stripped_lines_stripped.
  - apply strip_idempotent.
Qed.

Lemma canonical_splitlines r L : canonical r L -> splitlines r = L.
Proof. intros (H1 & _ & H3 & -> & _). now apply splitlines_join. Qed.

Lemma canonical_no_CR r L : canonical r L -> ~ In CR r.
Proof. intros (H1 & _ & _ & -> & _). now apply join_one_line_no_CR. Qed.

Lemma canonical_normalize r L : canonical r L -> normalize_lines r = r.
Proof.
  intros H. unfold normalize_lines.
  rewrite replace_ch_absent by (eapply canonical_no_CR; eassumption).
  rewrite (canonical_splitlines r L H).
  destruct H as (_ & H2 & _ & E & _). rewrite E. f_equal.
  clear E. induction H2 as [|l L' Hl _ IH]; [reflexivity|].
  simpl. now rewrite IH, (strip_fixed l Hl).
Qed.

Lemma clean_text_on_canonical r L :
  canonical r L -> clean_text r = if is_object_dump r then [] else r.
Proof.
  intros H. destruct r as [|c r]; [reflexivity|].
  unfold clean_text. rewrite (canonical_normalize _ _ H).
  unfold is_object_dump.
  destruct (startswith marker (c :: r)); [reflexivity|].
  destruct (contains ns_name (c :: r) && startswith langle (c :: r)
            && endswith rangle (c :: r)); [reflexivity|].
  simpl. now destruct H as (_ & _ & _ & _ & E).
Qed.




End NormalizerFacts.




(** C10: the cleaned text holds no carriage return, each of its lines is
    unchanged by [strip] (no leading or trailing whitespace), the lines
    joined by newlines are the text again, and the text as a whole is
    unchanged by [strip]. *)
Theorem clean_text_tidy (s : pystr) :
  ~ In CR (clean_text s)
  /\ Forall (fun l => strip l = l) (splitlines (clean_text s))
  /\ join [LF] (splitlines (clean_text s)) = clean_text s
  /\ strip (clean_text s) = clean_text s.
Proof.
  destruct (clean_text_canonical s) as [L H].
  split; [eapply canonical_no_CR; eassumption|].
  rewrite (canonical_splitlines _ _ H).
  destruct H as (_ & H2 & _ & E & F).
  repeat split; auto.
  eapply Forall_impl; [|exact H2]. intros l. apply strip_fixed.
Qed.


Section ClassifierFacts.

Context {U : UnicodeDB}.

Lemma emoji_not_space c : isspace_ch c = true -> emoji_ch c = false.
Proof. unfold isspace_ch, emoji_ch. lia. Qed.

Lemma space_not_alpha c : isspace_ch c = true -> isalpha_ch c = false.
Proof.
  intros H. destruct (isalpha_ch c) eqn:E; [|reflexivity].
  apply alpha_not_space in E. congruence.
Qed.

Lemma existsb_all_false (f g : Z -> bool) s :
  (forall c, g c = true -> f c = false) ->
  forallb g s = true -> existsb f s = false.
Proof.
  intros Hfg. induction s as [|c s IH]; [reflexivity|]. simpl.
  intros H. apply andb_true_iff in H as [Hc Hs].
  now rewrite (Hfg c Hc), IH.
Qed.

(** Stripping loses no character that is not whitespace. *)
Lemma existsb_strip (f : Z -> bool) s :
  (forall c, isspace_ch c = true -> f c = false) ->
  existsb f (strip s) = existsb f s.
Proof.
  intros Hf. destruct (strip_split s) as [p [q [E [Hp Hq]]]].
  rewrite E at 2. rewrite !existsb_app.
  rewrite (existsb_all_false f isspace_ch p Hf Hp).
  rewrite (existsb_all_false f isspace_ch q Hf Hq).
  now rewrite orb_false_r.
Qed.

Lemma forallb_existsb_conflict (f g : Z -> bool) s :
  (forall c, g c = true -> f c = false) ->
  existsb g s = true -> forallb f s = false.
Proof.
  intros Hfg. induction s as [|c s IH]; [discriminate|]. simpl.
  intros H. apply orb_true_iff in H as [Hc|Hs].
  - now rewrite (Hfg c Hc).
  - rewrite (IH Hs). apply andb_false_r.
Qed.

Lemma is_humanish_unfold s :
  is_humanish s =
  if forallb isspace_ch s then false
  else if forallb isdigit_ch (strip s) then false
  else if existsb isalpha_ch s then true
  else existsb emoji_ch s.
Proof.
  destruct (forallb isspace_ch s) eqn:Hs.
  - unfold is_humanish. rewrite (strip_all_space s Hs). now destruct s.
  - destruct s as [|c s]; [discriminate|].
    unfold is_humanish.
    rewrite <- (existsb_strip isalpha_ch (c :: s) space_not_alpha).
    rewrite <- (existsb_strip emoji_ch (c :: s) emoji_not_space).
    destruct (strip (c :: s)) as [|d t] eqn:Et.
    + apply strip_nil_all_space in Et. congruence.
    + unfold str_isdigit, emoji_search.
      destruct (forallb isdigit_ch (d :: t)); [reflexivity|].
      destruct (existsb isalpha_ch (d :: t)); [reflexivity|].
      now destruct (existsb emoji_ch (d :: t)).
Qed.

Lemma is_humanish_nonempty s : is_humanish s = true -> s <> [].
Proof. now destruct s. Qed.

End ClassifierFacts.

(** C7 (amended): all-whitespace (or empty) strings are rejected; strings
    that after trimming consist of decimal digits only are rejected;
    strings with a letter are accepted; and for every other string the
    answer is whether it holds a character of U+1F300..U+1FAFF or
    U+2600..U+27BF, provided the trimmed string is not made solely of
    characters that [str.isdigit] accepts (decimal digits, superscripts,
    circled digits, ...), which is rejected. *)
Theorem is_humanish_cases {U : UnicodeDB} (s : pystr) :
  is_humanish s = is_humanish_by_digit s
  /\ (forallb isspace_ch s = true -> is_humanish s = false)
  /\ (forallb isdecimal_ch (strip s) = true -> is_humanish s = false)
  /\ (existsb isalpha_ch s = true -> is_humanish s = true)
  /\ (forallb isspace_ch s = false ->
      forallb isdigit_ch (strip s) = false ->
      existsb isalpha_ch s = false ->
      is_humanish s = existsb emoji_ch s).
Proof.
  rewrite is_humanish_unfold. unfold is_humanish_by_digit.
  split; [reflexivity|]. split; [now intros ->|]. split; [|split].
  - intros H. destruct (forallb isspace_ch s); [reflexivity|].
    assert (E : forallb isdigit_ch (strip s) = true).
    { clear -H. induction (strip s) as [|c t IH]; [reflexivity|].
      simpl in *. apply andb_true_iff in H as [Hc Ht].
      now rewrite (decimal_is_digit c Hc), IH. }
    now rewrite E.
  - intros H.
    assert (Hs : forallb isspace_ch s = false).
    { apply forallb_existsb_conflict with (g := isalpha_ch); [|exact H].
      apply alpha_not_space. }
    assert (Hd : forallb isdigit_ch (strip s) = false).
    { apply forallb_existsb_conflict with (g := isalpha_ch).
      - apply alpha_not_digit.
      - now rewrite existsb_strip by apply space_not_alpha. }
    now rewrite Hs, Hd, H.
  - now intros -> -> ->.
Qed.

(** C7, evaluated on a sentence, a padded number, punctuation and U+263A. *)
Lemma is_humanish_cases_witness :
  is_humanish (U := latin_tables) (str "Hello there") = true
  /\ is_humanish (U := latin_tables) (str " 0042 ") = false
  /\ is_humanish (U := latin_tables) (str "?!") = false
  /\ is_humanish (U := latin_tables) [9786] = true.
Proof.
  split; [|split; [|split]].
  - destruct (is_humanish_cases (U := latin_tables) (str "Hello there"))
      as (_ & _ & _ & H & _).
    apply H. reflexivity.
  - destruct (is_humanish_cases (U := latin_tables) (str " 0042 "))
      as (_ & _ & H & _ & _).
    apply H. reflexivity.
  - destruct (is_humanish_cases (U := latin_tables) (str "?!"))
      as (_ & _ & _ & _ & H).
    rewrite H; reflexivity.
  - destruct (is_humanish_cases (U := latin_tables) [9786])
      as (_ & _ & _ & _ & H).
    rewrite H; reflexivity.
Defined.

(** C7 (counterexample): U+2776, a circled dingbat digit, is not a decimal
    digit and lies in the range U+2600..U+27BF, so the rule as worded
    accepts it; [str.isdigit] holds for it, so the program rejects it. *)
Lemma is_humanish_dingbat_digit :
  is_humanish (U := latin_tables) [10102]
  <> is_humanish_by_decimal (U := latin_tables) [10102].
Proof. vm_compute. discriminate. Qed.



Section ExtractorFacts.

Context {U : UnicodeDB}.









End ExtractorFacts.




Section DecoderFacts.

Context {U : UnicodeDB} {R : Runtime}.

Lemma humanish_or_empty s :
  let r := if is_humanish s then s else [] in r = [] \/ is_humanish r = true.
Proof. simpl. destruct (is_humanish s) eqn:E; auto. Qed.

Lemma decode_attr_humanish blob :
  value (decode_attr blob) = [] \/ is_humanish (value (decode_attr blob)) = true.
Proof.
  destruct blob as [[|b data]|]; try (left; reflexivity).
  unfold decode_attr, invoke, bind, ret, value.
  destruct (unarchive Secure (b :: data)) as [|o1 [e1|]];
    destruct (unarchive Legacy (b :: data)) as [|o2 [e2|]];
    try destruct (is_None o1); try destruct (is_None o2);
    cbn [fst]; auto using humanish_or_empty.
Qed.

Lemma decode_summary_humanish blob :
  decode_summary blob = [] \/ is_humanish (decode_summary blob) = true.
Proof.
  destruct blob as [[|b data]|]; try (left; reflexivity).
  unfold decode_summary.
  destruct (plistlib_loads (b :: data)); [|now left].
  apply humanish_or_empty.
Qed.

End DecoderFacts.

(** C9: for every blob, null and empty included, [decode_attr] and
    [decode_summary] each return the empty string or a string that passes
    [is_humanish]. *)
Theorem decoders_humanish_or_empty {U : UnicodeDB} {R : Runtime}
    (blob : option bytes) :
  (value (decode_attr blob) = []
   \/ is_humanish (value (decode_attr blob)) = true)
  /\ (decode_summary blob = [] \/ is_humanish (decode_summary blob) = true).
Proof.
  split; [apply decode_attr_humanish|apply decode_summary_humanish].
Qed.

(** C1 (amended): for a non-empty blob the legacy decode is attempted
    exactly when the secure decode did not deserialize an object (it
    raised, reported an error or returned no object).  When the secure
    decode deserializes an object, [decode_attr] returns the extracted
    string if it passes the classifier and the empty string otherwise,
    without a legacy attempt.  A non-empty result always passes the
    classifier. *)
Theorem decode_attr_fallback {U : UnicodeDB} {R : Runtime} (data : bytes) :
  data <> [] ->
  calls (decode_attr (Some data))
  = (if secure_decoded data then [Secure] else [Secure; Legacy])
  /\ (forall obj,
        unarchive Secure data = Unarchived obj None -> is_None obj = false ->
        value (decode_attr (Some data))
        = (if is_humanish (best_string_from obj)
           then best_string_from obj else []))
  /\ (value (decode_attr (Some data)) <> [] ->
      is_humanish (value (decode_attr (Some data))) = true).
Proof.
  intros Hne. split; [|split].
  - destruct data as [|b data]; [congruence|].
    unfold decode_attr, secure_decoded, invoke, bind, ret, calls.
    destruct (unarchive Secure (b :: data)) as [|o1 [e1|]];
      destruct (unarchive Legacy (b :: data)) as [|o2 [e2|]];
      try destruct (is_None o1); try destruct (is_None o2); reflexivity.
  - intros obj E Ho. destruct data as [|b data]; [congruence|].
    unfold decode_attr, invoke, bind, ret, value.
    rewrite E, Ho. reflexivity.
  - intros H. destruct (decode_attr_humanish (Some data)); congruence.
Qed.

(** C1, evaluated on an archive the secure decode rejects and on one it
    accepts. *)
Lemma decode_attr_fallback_witness :
  calls (decode_attr (U := latin_tables) (R := demo_runtime) (Some [x03]))
  = [Secure; Legacy]
  /\ value (decode_attr (U := latin_tables) (R := demo_runtime) (Some [x02]))
     = str "ok thanks".
Proof.
  split.
  - destruct (decode_attr_fallback (U := latin_tables) (R := demo_runtime) [x03])
      as (H & _ & _); [discriminate|].
    etransitivity; [exact H|reflexivity].
  - destruct (decode_attr_fallback (U := latin_tables) (R := demo_runtime) [x02])
      as (_ & H & _); [discriminate|].
    etransitivity; [exact (H _ eq_refl eq_refl)|reflexivity].
Defined.

(** C1 (counterexample): the blob decodes securely to the string "12",
    which fails the classifier; Attempt 1 produced nothing usable, and
    yet the legacy decode is not attempted. *)
Lemma decode_attr_no_fallback_after_decode :
  [x01] <> []
  /\ secure_usable (U := latin_tables) (R := demo_runtime) [x01] = false
  /\ ~ In Legacy
       (calls (decode_attr (U := latin_tables) (R := demo_runtime) (Some [x01]))).
Proof.
  split; [discriminate|]. split; [reflexivity|].
  vm_compute. intros [H|[]]. discriminate.
Qed.

Section ResolverFacts.

Context {U : UnicodeDB} {R : Runtime}.

Lemma resolve_Some r o :
  resolve r = Some o ->
  truthy_str (assoc_guid r) = false
  /\ is_humanish (text_full o) = true
  /\ role o = role_of (from_me r)
  /\ out_from_me o = from_me r
  /\ timestamp_utc o = format_ts (ts_unix r).
Proof.
  unfold resolve.
  destruct (truthy_str (assoc_guid r)); [discriminate|].
  match goal with
  | |- context [let '(a, b) := ?p in _] => destruct p as [txt1 src1]
  end.
  match goal with
  | |- context [let '(a, b) := ?p in _] => destruct p as [txt2 src2]
  end.
  destruct (is_humanish txt2) eqn:E; [|discriminate].
  cbn [negb]. intros H. injection H as <-. cbn. auto.
Qed.

Lemma not_humanish_empty s :
  s = [] \/ is_humanish s = true -> is_humanish s = false -> s = [].
Proof. intros [H|H] H'; [exact H|congruence]. Qed.

Lemma resolve_None_without_text r :
  is_humanish (clean_text (or_empty (text_plain r))) = false ->
  is_humanish (value (decode_attr (attr_blob r))) = false ->
  is_humanish (decode_summary (summary_blob r)) = false ->
  resolve r = None.
Proof.
  intros H1 H2 H3. unfold resolve.
  destruct (truthy_str (assoc_guid r)); [reflexivity|].
  rewrite H1.
  rewrite (not_humanish_empty _ (decode_attr_humanish _) H2).
  rewrite (not_humanish_empty _ (decode_summary_humanish _) H3).
  now rewrite H1.
Qed.

End ResolverFacts.

(** C2: every emitted record has a non-empty final text that passes
    [is_humanish]; and a row whose normalized plain text, rich-text
    decode and property-list decode all fail the classifier produces no
    record. *)
Theorem resolve_emits_human_text {U : UnicodeDB} {R : Runtime} (r : Row) :
  (forall o, resolve r = Some o ->
             text_full o <> [] /\ is_humanish (text_full o) = true)
  /\ (is_humanish (clean_text (or_empty (text_plain r))) = false ->
      is_humanish (value (decode_attr (attr_blob r))) = false ->
      is_humanish (decode_summary (summary_blob r)) = false ->
      resolve r = None).
Proof.
  split.
  - intros o H. apply resolve_Some in H as (_ & H & _).
    split; [now apply is_humanish_nonempty|exact H].
  - apply resolve_None_without_text.
Qed.


(** C2, evaluated on a row resolved from its rich-text blob and on a row
    whose three sources are numeric. *)
Lemma resolve_emits_human_text_witness :
  (exists o,
      resolve (U := latin_tables) (R := demo_runtime)
        (row_with None None (Some [x02]) None (Some 1) (Some 2678307200))
      = Some o
      /\ text_full o = str "ok thanks" /\ source o = str "attributedBody"
      /\ text_full o <> [] /\ is_humanish (U := latin_tables) (text_full o) = true)
  /\ resolve (U := latin_tables) (R := demo_runtime)
       (row_with None (Some (str " 2024 ")) (Some [x01]) (Some [x11])
          (Some 0) None)
     = None.
Proof.
  split.
  - eexists. split; [reflexivity|].
    split; [reflexivity|]. split; [reflexivity|].
    eapply (proj1 (resolve_emits_human_text (U := latin_tables) (R := demo_runtime)
                     (row_with None None (Some [x02]) None (Some 1)
                        (Some 2678307200)))).
    reflexivity.
  - apply (proj2 (resolve_emits_human_text (U := latin_tables) (R := demo_runtime)
                    (row_with None (Some (str " 2024 ")) (Some [x01]) (Some [x11])
                       (Some 0) None))); reflexivity.
Defined.

(** C4 (amended): a row whose association guid is non-null and not the
    empty string produces no record, whatever its other fields. *)
Theorem resolve_drops_associated {U : UnicodeDB} {R : Runtime} (r : Row) (g : pystr) :
  assoc_guid r = Some g -> g <> [] -> resolve r = None.
Proof.
  intros E Hg. unfold resolve. rewrite E.
  destruct g; [congruence|reflexivity].
Qed.

(** C4, evaluated on a row with a guid and a readable plain text. *)
Lemma resolve_drops_associated_witness :
  resolve (U := latin_tables) (R := demo_runtime)
    (row_with (Some (str "p:0/8F1C")) (Some (str "Hello there")) None None
       (Some 1) (Some 2678307200))
  = None.
Proof.
  apply (resolve_drops_associated (U := latin_tables) (R := demo_runtime)
           _ (str "p:0/8F1C")).
  - reflexivity.
  - discriminate.
Defined.

(** C4 (counterexample): the guid is the empty string, which is non-null
    but false as a condition; the row is resolved from its plain text. *)
Lemma resolve_keeps_empty_guid :
  assoc_guid (row_with (Some []) (Some (str "Hello there")) None None
                (Some 1) None) = Some []
  /\ resolve (U := latin_tables) (R := demo_runtime)
       (row_with (Some []) (Some (str "Hello there")) None None (Some 1) None)
     <> None.
Proof. split; [reflexivity|]. vm_compute. discriminate. Qed.

(** C5 (amended): the role of an emitted record is [me] when the origin
    flag equals 1 and [other] for every other value, null included. *)
Theorem resolve_role {U : UnicodeDB} {R : Runtime} (r : Row) (o : Resolved) :
  resolve r = Some o ->
  (from_me r = Some 1 -> role o = str "me")
  /\ (from_me r <> Some 1 -> role o = str "other").
Proof.
  intros H. apply resolve_Some in H as (_ & _ & -> & _).
  unfold role_of. split.
  - now intros ->.
  - intros Hne. destruct (from_me r) as [[|[p|p|]|p]|]; try reflexivity.
    congruence.
Qed.

(** C5, evaluated on a row sent by the owner. *)
Lemma resolve_role_witness :
  exists o,
    resolve (U := latin_tables) (R := demo_runtime)
      (row_with None (Some (str "Hello there")) None None (Some 1) None)
    = Some o
    /\ role o = str "me".
Proof.
  eexists. split; [reflexivity|].
  apply (resolve_role (U := latin_tables) (R := demo_runtime)
           (row_with None (Some (str "Hello there")) None None (Some 1) None));
    reflexivity.
Defined.

(** C5 (counterexample): the origin flag 2 is truthy, and the role is
    not [me]. *)
Lemma resolve_role_truthy_other :
  exists o,
    resolve (U := latin_tables) (R := demo_runtime)
      (row_with None (Some (str "Hello there")) None None (Some 2) None)
    = Some o
    /\ truthy_int (Some 2) = true
    /\ role o <> str "me".
Proof.
  eexists. split; [reflexivity|]. split; [reflexivity|].
  vm_compute. discriminate.
Qed.

Section TimestampFacts.

Context {R : Runtime}.

Lemma quot_billion_pos d : 1000000000000 < d -> 0 < Z.quot d 1000000000.
Proof.
  intros H. rewrite Z.quot_div_nonneg by lia.
  apply Z.div_str_pos. lia.
Qed.

(** The CASE expression stays within SQLite's 64-bit integers. *)
Lemma ts_unix_case_int64 d t :
  - 2 ^ 63 <= d < 2 ^ 63 -> ts_unix_case (Some d) = Some t -> 0 < t < 2 ^ 63.
Proof.
  intros Hd. unfold ts_unix_case.
  destruct (Z.ltb_spec 1000000000000 d) as [H|H].
  - intros E. injection E as <-.
    pose proof (quot_billion_pos d H) as Hq.
    rewrite Z.quot_div_nonneg in * by lia.
    assert (d / 1000000000 <= d) by (apply Z.div_le_upper_bound; lia).
    assert (d / 1000000000 < 2 ^ 63 / 1000000000 + 1).
    { apply Z.div_lt_upper_bound; [lia|].
      change (2 ^ 63) with 9223372036854775808 in *.
      change (9223372036854775808 / 1000000000) with 9223372036. lia. }
    change (2 ^ 63) with 9223372036854775808 in *.
    change (9223372036854775808 / 1000000000) with 9223372036 in *. lia.
  - destruct (Z.ltb_spec 0 d); [|discriminate].
    intros E. injection E as <-.
    change (2 ^ 63) with 9223372036854775808 in *. lia.
Qed.

End TimestampFacts.

(** C6: a raw value above 10^12 is taken as nanoseconds (divided by 10^9,
    plus 978307200), another positive value as seconds (plus 978307200),
    and any other value gives no timestamp, printed as the empty string;
    the raw values 1700000000 and 1700000000000000000 give the same
    instant. *)
Theorem timestamp_rule {R : Runtime} (v : Z) :
  ts_unix_case (Some v)
  = (if 1000000000000 <? v then Some (v / 1000000000 + 978307200)
     else if 0 <? v then Some (v + 978307200)
     else None)
  /\ format_ts (ts_unix_case (Some v))
     = (if 1000000000000 <? v then strftime_gmtime (v / 1000000000 + 978307200)
        else if 0 <? v then strftime_gmtime (v + 978307200)
        else [])
  /\ ts_unix_case (Some 1700000000) = Some (1700000000 + 978307200)
  /\ ts_unix_case (Some 1700000000000000000) = ts_unix_case (Some 1700000000)
  /\ format_ts (ts_unix_case (Some 1700000000000000000))
     = format_ts (ts_unix_case (Some 1700000000)).
Proof.
  assert (E : ts_unix_case (Some v)
              = (if 1000000000000 <? v then Some (v / 1000000000 + 978307200)
                 else if 0 <? v then Some (v + 978307200)
                 else None)).
  { unfold ts_unix_case. destruct (Z.ltb_spec 1000000000000 v); [|reflexivity].
    now rewrite Z.quot_div_nonneg by lia. }
  split; [exact E|]. split; [|repeat split].
  rewrite E. unfold format_ts.
  destruct (Z.ltb_spec 1000000000000 v) as [H|H].
  - pose proof (quot_billion_pos v H) as Hq.
    rewrite Z.quot_div_nonneg in Hq by lia.
    destruct (Z.eqb_spec (v / 1000000000 + 978307200) 0); [lia|reflexivity].
  - destruct (Z.ltb_spec 0 v) as [H'|H']; [|reflexivity].
    destruct (Z.eqb_spec (v + 978307200) 0); [lia|reflexivity].
Qed.

(** ** The resolver on the rows of the specification's examples *)

Example resolve_plain_text :
  option_map (fun o => (text_full o, source o))
    (resolve (U := latin_tables) (R := demo_runtime)
       (row_with None (Some (str "  Hi!" ++ [LF] ++ str " ")) None None
          (Some 0) None))
  = Some (str "Hi!", str "text").
Proof. reflexivity. Qed.

Example resolve_summary :
  option_map (fun o => (text_full o, source o, role o, timestamp_utc o))
    (resolve (U := latin_tables) (R := demo_runtime)
       (row_with None None None (Some [x10]) (Some 1)
          (ts_unix_case (Some 1700000000))))
  = Some (str "See this link", str "message_summary_info", str "me",
          str "2054-11-14 22:13:20").
Proof. reflexivity. Qed.

Example export_keeps_order :
  map text_full
    (export (U := latin_tables) (R := demo_runtime)
       [row_with None (Some (str "first")) None None (Some 1) None;
        row_with (Some (str "p:0/8F1C")) (Some (str "Loved it")) None None
          (Some 0) None;
        row_with None (Some (str "2024")) None None (Some 0) None;
        row_with None None (Some [x03]) None (Some 0) None])
  = [str "first"; str "from the old archive"].
Proof. reflexivity. Qed.

(** * Further properties *)


Section InkFacts.

Lemma ink_app a b : ink (a ++ b) = ink a ++ ink b.
Proof. apply filter_app. Qed.

Lemma ink_all_space s : forallb isspace_ch s = true -> ink s = [].
Proof.
  induction s as [|c s IH]; [reflexivity|]. simpl.
  intros H. apply andb_true_iff in H as [-> H]. now apply IH.
Qed.

Lemma ink_nil_all_space s : ink s = [] -> forallb isspace_ch s = true.
Proof.
  induction s as [|c s IH]; [reflexivity|]. simpl.
  destruct (isspace_ch c); simpl; [exact IH|discriminate].
Qed.

Lemma ink_strip s : ink (strip s) = ink s.
Proof.
  destruct (strip_split s) as [p [q [E [Hp Hq]]]].
  rewrite E at 2. rewrite !ink_app.
  now rewrite (ink_all_space p Hp), (ink_all_space q Hq), app_nil_r.
Qed.

Lemma ink_replace_CR s : ink (replace_ch CR LF s) = ink s.
Proof.
  induction s as [|c s IH]; [reflexivity|]. simpl.
  destruct (Z.eqb_spec c CR) as [->|_]; simpl; now rewrite IH.
Qed.

Lemma ink_join L : ink (join [LF] L) = List.concat (map ink L).
Proof.
  induction L as [|l L IH]; [reflexivity|].
  destruct L as [|b L'].
  - simpl. now rewrite app_nil_r.
  - rewrite join_cons by discriminate.
    rewrite !ink_app, IH. reflexivity.
Qed.

Lemma ink_cons_space c s : isspace_ch c = true -> ink (c :: s) = ink s.
Proof. intros H. simpl. now rewrite H. Qed.

Lemma ink_splitlines s : List.concat (map ink (splitlines s)) = ink s.
Proof.
  functional induction (splitlines s);
    try match goal with
        | H : splitlines _ = _ |- _ => rewrite H in *
        end;
    try match goal with
        | H : is_linebreak ?c = true |- _ =>
            apply linebreak_isspace in H;
            cbn [map List.concat app]; rewrite (ink_cons_space c) by exact H
        end.
  - reflexivity.
  - match goal with H : (_ =? LF) = true |- _ => apply Z.eqb_eq in H; subst end.
    now rewrite (ink_cons_space LF) by reflexivity.
  - assumption.
  - assumption.
  - assumption.
  - change (c :: r) with ([c] ++ r). rewrite ink_app, <- IHl.
    cbn [map List.concat]. now rewrite !app_nil_r.
  - change (c :: r) with ([c] ++ r). rewrite ink_app, <- IHl.
    cbn [map List.concat]. change (c :: l) with ([c] ++ l).
    now rewrite ink_app, app_assoc.
Qed.

Lemma ink_map_strip L : List.concat (map ink (map strip L)) = List.concat (map ink L).
Proof.
  induction L as [|l L IH]; [reflexivity|]. simpl. now rewrite ink_strip, IH.
Qed.

Lemma ink_normalize_lines s : ink (normalize_lines s) = ink s.
Proof.
  unfold normalize_lines.
  now rewrite ink_join, ink_map_strip, ink_splitlines, ink_replace_CR.
Qed.

Lemma clean_text_unfold s :
  clean_text s
  = if is_object_dump (normalize_lines s) then []
    else strip (normalize_lines s).
Proof.
  destruct s as [|c s]; [reflexivity|].
  unfold clean_text, is_object_dump.
  destruct (startswith marker (normalize_lines (c :: s))); [reflexivity|].
  now destruct (contains ns_name (normalize_lines (c :: s))
                && startswith langle (normalize_lines (c :: s))
                && endswith rangle (normalize_lines (c :: s))).
Qed.

Lemma replace_ch_idempotent s :
  replace_ch CR LF (replace_ch CR LF s) = replace_ch CR LF s.
Proof.
  apply replace_ch_absent, replace_ch_removes. discriminate.
Qed.

Lemma normalize_lines_replace s :
  normalize_lines (replace_ch CR LF s) = normalize_lines s.
Proof. unfold normalize_lines. now rewrite replace_ch_idempotent. Qed.

Lemma lstrip_space_app p x :
  forallb isspace_ch p = true -> lstrip (p ++ x) = lstrip x.
Proof.
  induction p as [|c p IH]; [reflexivity|]. simpl.
  intros H. apply andb_true_iff in H as [-> H]. now apply IH.
Qed.

Lemma forallb_rev (f : Z -> bool) s : forallb f (rev s) = forallb f s.
Proof.
  induction s as [|c s IH]; [reflexivity|]. simpl.
  rewrite forallb_app, IH. simpl. rewrite andb_true_r. apply andb_comm.
Qed.

Lemma rstrip_app_space x q :
  forallb isspace_ch q = true -> rstrip (x ++ q) = rstrip x.
Proof.
  intros H. unfold rstrip. rewrite rev_app_distr.
  now rewrite lstrip_space_app by now rewrite forallb_rev.
Qed.

Lemma strip_pad p s q :
  forallb isspace_ch p = true -> forallb isspace_ch q = true ->
  strip (p ++ s ++ q) = strip s.
Proof.
  intros Hp Hq. unfold strip. rewrite (lstrip_space_app p) by exact Hp.
  destruct (lstrip_split s) as [a [E Ha]].
  rewrite E at 1. rewrite <- app_assoc, (lstrip_space_app a) by exact Ha.
  pose proof (lstrip_starts_clean s) as Hc.
  destruct (lstrip s) as [|c t].
  - simpl. now rewrite (lstrip_all_space q Hq).
  - simpl in Hc. cbn [app lstrip]. rewrite Hc.
    change (c :: t ++ q) with ((c :: t) ++ q).
    now apply rstrip_app_space.
Qed.

End InkFacts.

Section MoreClassifierFacts.

Context {U : UnicodeDB}.

Lemma is_humanish_strip s : is_humanish (strip s) = is_humanish s.
Proof.
  rewrite !is_humanish_unfold, strip_idempotent.
  rewrite (existsb_strip isalpha_ch s space_not_alpha).
  rewrite (existsb_strip emoji_ch s emoji_not_space).
  destruct (forallb isspace_ch s) eqn:Hs.
  - now rewrite (strip_all_space s Hs).
  - assert (E : forallb isspace_ch (strip s) = false).
    { pose proof (strip_stripped s) as [Hc _].
      destruct (strip s) as [|c t] eqn:Et.
      - apply strip_nil_all_space in Et. congruence.
      - simpl in Hc. simpl. now rewrite Hc. }
    now rewrite E.
Qed.

Lemma existsb_ink (f : Z -> bool) s :
  (forall c, isspace_ch c = true -> f c = false) ->
  existsb f (ink s) = existsb f s.
Proof.
  intros Hf. induction s as [|c s IH]; [reflexivity|]. simpl.
  destruct (isspace_ch c) eqn:Hc; simpl; rewrite IH; [|reflexivity].
  now rewrite (Hf c Hc).
Qed.

Lemma alpha_humanish s : existsb isalpha_ch s = true -> is_humanish s = true.
Proof.
  intros H. rewrite is_humanish_unfold.
  rewrite (forallb_existsb_conflict isspace_ch isalpha_ch s alpha_not_space H).
  rewrite (forallb_existsb_conflict isdigit_ch isalpha_ch (strip s) alpha_not_digit)
    by now rewrite existsb_strip by apply space_not_alpha.
  now rewrite H.
Qed.

End MoreClassifierFacts.

(** X1: whitespace before and after a string does not change the answer
    of [is_humanish]. *)
Theorem is_humanish_ignores_padding {U : UnicodeDB} (p s q : pystr) :
  forallb isspace_ch p = true -> forallb isspace_ch q = true ->
  is_humanish (p ++ s ++ q) = is_humanish s.
Proof.
  intros Hp Hq.
  rewrite <- (is_humanish_strip (p ++ s ++ q)), strip_pad by assumption.
  apply is_humanish_strip.
Qed.

(** X1, evaluated with blanks, a newline and U+3000 around a sentence. *)
Lemma is_humanish_ignores_padding_witness :
  is_humanish (U := latin_tables) (str "  " ++ str "ok thanks" ++ [LF; 12288])
  = is_humanish (U := latin_tables) (str "ok thanks").
Proof.
  apply (is_humanish_ignores_padding (U := latin_tables)); reflexivity.
Defined.

(** X2: [clean_text] changes whitespace only: the characters of the result
    that are not whitespace are those of the input, in the same order,
    unless the normalized text is taken for an object dump, in which case
    the result is empty. *)
Theorem clean_text_keeps_ink (s : pystr) :
  ink (clean_text s)
  = if is_object_dump (normalize_lines s) then [] else ink s.
Proof.
  rewrite clean_text_unfold.
  destruct (is_object_dump (normalize_lines s)); [reflexivity|].
  now rewrite ink_strip, ink_normalize_lines.
Qed.

(** X3: a string of whitespace only is cleaned to the empty string. *)
Theorem clean_text_blank (s : pystr) :
  forallb isspace_ch s = true -> clean_text s = [].
Proof.
  intros H. rewrite clean_text_unfold.
  destruct (is_object_dump (normalize_lines s)); [reflexivity|].
  apply strip_all_space, ink_nil_all_space.
  rewrite ink_normalize_lines. now apply ink_all_space.
Qed.

(** X3, evaluated on blanks, a tab and line separators. *)
Lemma clean_text_blank_witness :
  clean_text ([32; CR; LF; 9; 8232; LF]) = [].
Proof. apply clean_text_blank. reflexivity. Defined.

(** X4: a single line with no whitespace at its ends that is not an
    object dump is returned unchanged. *)
Theorem clean_text_single_line (s : pystr) :
  one_line s -> strip s = s -> is_object_dump s = false -> clean_text s = s.
Proof.
  intros Hl Hs Hd. destruct s as [|c s]; [reflexivity|].
  assert (Hst : stripped (c :: s)) by (rewrite <- Hs; apply strip_stripped).
  rewrite (clean_text_on_canonical (c :: s) [c :: s]), Hd; [reflexivity|].
  repeat split; try (constructor; [assumption|constructor]); try exact Hs;
    try apply Hst.
  intros M E. destruct M as [|m M]; [discriminate|].
  injection E as _ E. now destruct M.
Qed.

(** X4, evaluated on a short message. *)
Lemma clean_text_single_line_witness :
  clean_text (str "See you at 5, ok?") = str "See you at 5, ok?".
Proof. apply clean_text_single_line; reflexivity. Defined.

(** Carriage returns count as newlines. *)
Lemma clean_text_carriage_returns (s : pystr) :
  clean_text (replace_ch CR LF s) = clean_text s.
Proof. now rewrite !clean_text_unfold, normalize_lines_replace. Qed.

(** X5: a CR LF between two lines becomes two newlines: since the
    carriage return is replaced before the lines are split, the cleaned
    text has an empty line between the two (unless it is taken for an
    object dump). *)
Theorem clean_text_crlf (a b : pystr) :
  one_line a -> one_line b -> strip a = a -> strip b = b ->
  a <> [] -> b <> [] ->
  clean_text (a ++ [CR; LF] ++ b)
  = if is_object_dump (a ++ [LF; LF] ++ b) then [] else a ++ [LF; LF] ++ b.
Proof.
  intros Ha Hb Sa Sb Na Nb.
  assert (Hsa : stripped a) by (rewrite <- Sa; apply strip_stripped).
  assert (Hsb : stripped b) by (rewrite <- Sb; apply strip_stripped).
  assert (Ra : replace_ch CR LF a = a).
  { apply replace_ch_absent. intros Hin. unfold one_line in Ha.
    rewrite forallb_forall in Ha. specialize (Ha _ Hin). discriminate. }
  assert (Rb : replace_ch CR LF b = b).
  { apply replace_ch_absent. intros Hin. unfold one_line in Hb.
    rewrite forallb_forall in Hb. specialize (Hb _ Hin). discriminate. }
  assert (E : replace_ch CR LF (a ++ [CR; LF] ++ b) = a ++ [LF; LF] ++ b).
  { unfold replace_ch in *. rewrite !map_app, Ra, Rb. reflexivity. }
  rewrite <- clean_text_carriage_returns, E.
  apply (clean_text_on_canonical _ [a; []; b]).
  assert (Hj : a ++ [LF; LF] ++ b = join [LF] [a; []; b]).
  { cbn [join app]. reflexivity. }
  split; [|split; [|split; [|split]]].
  - repeat constructor; assumption.
  - repeat constructor; try apply Hsa; try apply Hsb.
  - intros M E'. destruct M as [|m1 [|m2 [|m3 M]]]; try discriminate.
    + injection E' as _ _ E'. congruence.
    + injection E' as _ _ _ E'. now destruct M.
  - exact Hj.
  - apply strip_fixed. split.
    + destruct a as [|c a]; [congruence|]. apply Hsa.
    + rewrite !rev_app_distr. destruct Hsb as [_ Hb'].
      destruct (rev b) as [|c rb] eqn:Erb.
      * apply (f_equal (@rev Z)) in Erb. rewrite rev_involutive in Erb.
        simpl in Erb. congruence.
      * exact Hb'.
Qed.

(** X5, evaluated on two words. *)
Lemma clean_text_crlf_witness :
  clean_text (str "first" ++ [CR; LF] ++ str "second")
  = str "first" ++ [LF; LF] ++ str "second".
Proof.
  etransitivity;
    [apply (clean_text_crlf (str "first") (str "second"));
     (reflexivity || discriminate)|reflexivity].
Defined.

(** X6: for a text with a letter, the cleaned text passes the classifier
    exactly when the text is not dropped as an object dump. *)
Theorem clean_text_keeps_letters {U : UnicodeDB} (s : pystr) :
  existsb isalpha_ch s = true ->
  is_humanish (clean_text s) = negb (is_object_dump (normalize_lines s)).
Proof.
  intros H. pose proof (clean_text_keeps_ink s) as E.
  destruct (is_object_dump (normalize_lines s)) eqn:Hd.
  - rewrite clean_text_unfold, Hd. reflexivity.
  - apply alpha_humanish.
    rewrite <- (existsb_ink isalpha_ch) by apply space_not_alpha.
    rewrite E. now rewrite existsb_ink by apply space_not_alpha.
Qed.

(** X6, evaluated on a padded greeting. *)
Lemma clean_text_keeps_letters_witness :
  is_humanish (U := latin_tables) (clean_text (str "  Hi!  ")) = true.
Proof.
  etransitivity;
    [apply (clean_text_keeps_letters (U := latin_tables)); reflexivity
    |reflexivity].
Defined.


Section GraphFacts.

Context {U : UnicodeDB}.

Lemma find_app {A} (f : A -> bool) a b :
  find f (a ++ b) = match find f a with Some x => Some x | None => find f b end.
Proof.
  induction a as [|x a IH]; [reflexivity|]. simpl.
  destruct (f x); [reflexivity|exact IH].
Qed.









End GraphFacts.





Section SummaryFacts.

Context {U : UnicodeDB} {R : Runtime}.

Lemma first_or_empty_app f a b :
  first_or_empty f (a ++ b)
  = match find f a with Some s => s | None => first_or_empty f b end.
Proof. unfold first_or_empty. rewrite find_app. now destruct (find f a). Qed.

Lemma pull_first_text x :
  pull x = first_or_empty is_humanish (plist_texts x)
  /\ (find is_humanish (plist_texts x) = None -> pull x = []).
Proof.
  induction x as [s|b|entries IH|items IH|] using plist_induction.
  - cbn [pull plist_texts]. unfold first_or_empty. cbn [find].
    destruct (is_humanish (clean_text s)); split; (reflexivity || discriminate).
  - cbn [pull plist_texts]. unfold first_or_empty. cbn [find].
    destruct (is_humanish (clean_text (decode_utf8_ignore b))); split;
      (reflexivity || discriminate).
  - cbn [pull plist_texts].
    induction IH as [|[k v] rest [Hv Hv'] _ [IH1 IH2]]; [split; reflexivity|].
    cbn [flat_map snd] in *. rewrite first_or_empty_app, find_app.
    destruct (find is_humanish (plist_texts v)) as [s|] eqn:Ef.
    + unfold first_or_empty in Hv. rewrite Ef in Hv. rewrite Hv.
      apply find_some in Ef as [_ Ef].
      split; [|discriminate]. destruct s; [discriminate|reflexivity].
    + rewrite (Hv' eq_refl). split; [exact IH1|exact IH2].
  - cbn [pull plist_texts].
    induction IH as [|v rest [Hv Hv'] _ [IH1 IH2]]; [split; reflexivity|].
    cbn [flat_map] in *. rewrite first_or_empty_app, find_app.
    destruct (find is_humanish (plist_texts v)) as [s|] eqn:Ef.
    + unfold first_or_empty in Hv. rewrite Ef in Hv. rewrite Hv.
      apply find_some in Ef as [_ Ef].
      split; [|discriminate]. destruct s; [discriminate|reflexivity].
    + rewrite (Hv' eq_refl). split; [exact IH1|exact IH2].
  - split; reflexivity.
Qed.


End SummaryFacts.





Section MoreResolverFacts.

Context {U : UnicodeDB} {R : Runtime}.

(** [resolve] as one decision over the three candidates. *)
Lemma resolve_cases r :
  resolve r =
  if truthy_str (assoc_guid r) then None
  else
    let plain := clean_text (or_empty (text_plain r)) in
    if is_humanish plain then Some (emit r plain (str "text"))
    else
      match value (decode_attr (attr_blob r)) with
      | c :: t => Some (emit r (c :: t) (str "attributedBody"))
      | [] =>
          match decode_summary (summary_blob r) with
          | c :: t => Some (emit r (c :: t) (str "message_summary_info"))
          | [] => None
          end
      end.
Proof.
  unfold resolve, emit.
  destruct (truthy_str (assoc_guid r)); [reflexivity|]. cbv zeta.
  destruct (is_humanish (clean_text (or_empty (text_plain r)))) eqn:Hp.
  - cbn. now rewrite Hp.
  - cbn [str list_ascii_of_string map].
    destruct (decode_attr_humanish (attr_blob r)) as [Ea|Ea].
    + rewrite Ea.
      destruct (decode_summary_humanish (summary_blob r)) as [Es|Es].
      * rewrite Es. now rewrite Hp.
      * destruct (decode_summary (summary_blob r)) as [|c t] eqn:Ed;
          [now rewrite Hp|].
        now rewrite Es.
    + destruct (value (decode_attr (attr_blob r))) as [|c t] eqn:Ed;
        [discriminate|].
      now rewrite Ea.
Qed.

Lemma decode_attr_cleaned blob :
  exists y, value (decode_attr blob) = clean_text y.
Proof.
  destruct blob as [[|b data]|]; try (now exists []).
  unfold decode_attr, invoke, bind, ret, value, best_string_from.
  destruct (unarchive Secure (b :: data)) as [|o1 [e1|]];
    destruct (unarchive Legacy (b :: data)) as [|o2 [e2|]];
    try destruct (is_None o1); try destruct (is_None o2); cbn [fst];
    try (now exists []);
    match goal with
    | |- context [if is_humanish (clean_text ?w) then _ else _] =>
        destruct (is_humanish (clean_text w)); [now exists w|now exists []]
    end.
Qed.

Lemma plist_texts_cleaned x :
  Forall (fun t => exists y, t = clean_text y) (plist_texts x).
Proof.
  induction x as [s|b|entries IH|items IH|] using plist_induction;
    cbn [plist_texts].
  - constructor; [now exists s|constructor].
  - constructor; [now exists (decode_utf8_ignore b)|constructor].
  - induction IH as [|[k v] rest Hv _ IHrest]; [constructor|].
    cbn [flat_map snd] in *. now apply Forall_app.
  - induction IH as [|v rest Hv _ IHrest]; [constructor|].
    cbn [flat_map] in *. now apply Forall_app.
  - constructor.
Qed.

Lemma decode_summary_cleaned blob :
  exists y, decode_summary blob = clean_text y.
Proof.
  destruct blob as [[|b data]|]; try (now exists []).
  unfold decode_summary.
  destruct (plistlib_loads (b :: data)) as [obj|]; [|now exists []].
  destruct (is_humanish (pull obj)); [|now exists []].
  rewrite (proj1 (pull_first_text obj)). unfold first_or_empty.
  destruct (find is_humanish (plist_texts obj)) as [t|] eqn:E; [|now exists []].
  apply find_some in E as [E _].
  pose proof (plist_texts_cleaned obj) as H. rewrite Forall_forall in H.
  now apply H.
Qed.

Lemma resolve_cleaned r o :
  resolve r = Some o -> exists y, text_full o = clean_text y.
Proof.
  rewrite resolve_cases.
  destruct (truthy_str (assoc_guid r)); [discriminate|]. cbv zeta.
  destruct (is_humanish (clean_text (or_empty (text_plain r)))).
  - intros E. injection E as <-. now eexists.
  - destruct (decode_attr_cleaned (attr_blob r)) as [y Ey].
    destruct (value (decode_attr (attr_blob r))) as [|c t].
    + destruct (decode_summary_cleaned (summary_blob r)) as [z Ez].
      destruct (decode_summary (summary_blob r)) as [|c t]; [discriminate|].
      intros E. injection E as <-. now exists z.
    + intros E. injection E as <-. now exists y.
Qed.

End MoreResolverFacts.

(** X11: the source tag of a record tells where its text came from:
    [text] with the cleaned plain text; [attributedBody] with the
    rich-text decode, only when the plain text failed the classifier;
    [message_summary_info] with the property-list decode, only when the
    plain text failed and the rich-text decode gave nothing.  No record
    has another tag. *)
Theorem resolve_source {U : UnicodeDB} {R : Runtime} (r : Row) (o : Resolved) :
  resolve r = Some o ->
  (source o = str "text"
   /\ text_full o = clean_text (or_empty (text_plain r)))
  \/ (source o = str "attributedBody"
      /\ text_full o = value (decode_attr (attr_blob r))
      /\ is_humanish (clean_text (or_empty (text_plain r))) = false)
  \/ (source o = str "message_summary_info"
      /\ text_full o = decode_summary (summary_blob r)
      /\ is_humanish (clean_text (or_empty (text_plain r))) = false
      /\ value (decode_attr (attr_blob r)) = []).
Proof.
  rewrite resolve_cases.
  destruct (truthy_str (assoc_guid r)); [discriminate|]. cbv zeta.
  destruct (is_humanish (clean_text (or_empty (text_plain r)))).
  - intros E. injection E as <-. left. split; reflexivity.
  - destruct (value (decode_attr (attr_blob r))) as [|c t].
    + destruct (decode_summary (summary_blob r)) as [|c t]; [discriminate|].
      intros E. injection E as <-. right. right. repeat split; reflexivity.
    + intros E. injection E as <-. right. left. repeat split; reflexivity.
Qed.

(** X11, evaluated on a row with a numeric plain text and both blobs. *)
Lemma resolve_source_witness :
  exists o,
    resolve (U := latin_tables) (R := demo_runtime)
      (row_with None (Some (str "7")) (Some [x03]) (Some [x10]) (Some 0) None)
    = Some o
    /\ source o = str "attributedBody"
    /\ text_full o = str "from the old archive".
Proof.
  eexists. split; [reflexivity|].
  destruct (resolve_source (U := latin_tables) (R := demo_runtime)
              (row_with None (Some (str "7")) (Some [x03]) (Some [x10])
                 (Some 0) None) _ eq_refl)
    as [[H _]|[[H1 [H2 _]]|[H _]]].
  - discriminate H.
  - split; [exact H1|exact H2].
  - discriminate H.
Defined.

(** X12: a row gives no record exactly when its association guid is a
    non-empty string, or its cleaned plain text fails the classifier and
    both decoders return the empty string. *)
Theorem resolve_None_iff {U : UnicodeDB} {R : Runtime} (r : Row) :
  resolve r = None <->
  truthy_str (assoc_guid r) = true
  \/ (is_humanish (clean_text (or_empty (text_plain r))) = false
      /\ value (decode_attr (attr_blob r)) = []
      /\ decode_summary (summary_blob r) = []).
Proof.
  rewrite resolve_cases.
  destruct (truthy_str (assoc_guid r)); [split; auto|]. cbv zeta.
  destruct (is_humanish (clean_text (or_empty (text_plain r)))).
  - split; [discriminate|]. intros [H|[H _]]; discriminate.
  - destruct (value (decode_attr (attr_blob r))) as [|c t].
    + destruct (decode_summary (summary_blob r)) as [|c t].
      * split; auto.
      * split; [discriminate|]. intros [H|(_ & _ & H)]; discriminate.
    + split; [discriminate|]. intros [H|(_ & H & _)]; discriminate.
Qed.

(** X13: whatever its source, the text of a record is unchanged by
    [strip], holds no carriage return, and each of its lines is unchanged
    by [strip]. *)
Theorem resolve_text_normalized {U : UnicodeDB} {R : Runtime}
    (r : Row) (o : Resolved) :
  resolve r = Some o ->
  strip (text_full o) = text_full o
  /\ ~ In CR (text_full o)
  /\ Forall (fun l => strip l = l) (splitlines (text_full o))
  /\ join [LF] (splitlines (text_full o)) = text_full o.
Proof.
  intros H. destruct (resolve_cleaned r o H) as [y ->].
  destruct (clean_text_canonical y) as [L HL].
  rewrite (canonical_splitlines _ _ HL).
  split; [apply HL|]. split; [eapply canonical_no_CR; eassumption|].
  destruct HL as (_ & H2 & _ & E & _). split; [|now symmetry].
  eapply Forall_impl; [|exact H2]. intros l. apply strip_fixed.
Qed.

(** X13, evaluated on a padded two-line plain text. *)
Lemma resolve_text_normalized_witness :
  exists o,
    resolve (U := latin_tables) (R := demo_runtime)
      (row_with None (Some (str " one " ++ [CR] ++ str " two ")) None None
         (Some 0) None)
    = Some o
    /\ text_full o = str "one" ++ [LF] ++ str "two"
    /\ strip (text_full o) = text_full o.
Proof.
  eexists. split; [reflexivity|]. split; [reflexivity|].
  eapply (resolve_text_normalized (U := latin_tables) (R := demo_runtime)
            (row_with None (Some (str " one " ++ [CR] ++ str " two ")) None None
               (Some 0) None)).
  reflexivity.
Defined.

(** X14: the records written for a list of rows are exactly the records
    of its rows; each has a text that passes the classifier, one of the
    three source tags and the role [me] or [other]; and there are never
    more records than rows. *)
Theorem export_records {U : UnicodeDB} {R : Runtime} (rows : list Row) :
  (forall o, In o (export rows) <-> exists r, In r rows /\ resolve r = Some o)
  /\ Forall (fun o =>
               is_humanish (text_full o) = true
               /\ (source o = str "text" \/ source o = str "attributedBody"
                   \/ source o = str "message_summary_info")
               /\ (role o = str "me" \/ role o = str "other"))
       (export rows)
  /\ (List.length (export rows) <= List.length rows)%nat.
Proof.
  assert (Hin : forall o, In o (export rows)
                          <-> exists r, In r rows /\ resolve r = Some o).
  { intros o. unfold export. rewrite in_flat_map. split.
    - intros [r [Hr Ho]]. exists r. split; [exact Hr|].
      destruct (resolve r) as [o'|]; [|contradiction].
      destruct Ho as [<-|[]]. reflexivity.
    - intros [r [Hr E]]. exists r. split; [exact Hr|]. rewrite E. now left. }
  split; [exact Hin|]. split.
  - apply Forall_forall. intros o Ho. apply Hin in Ho as [r [_ E]].
    pose proof (resolve_Some r o E) as (_ & Ht & Hr & _).
    split; [exact Ht|]. split.
    + destruct (resolve_source r o E) as [[H _]|[[H _]|[H _]]]; auto.
    + rewrite Hr. unfold role_of.
      destruct (from_me r) as [[|[p|p|]|p]|]; auto.
  - clear Hin. unfold export. induction rows as [|r rows IH]; [apply Nat.le_refl|].
    cbn [flat_map]. rewrite length_app. cbn [List.length].
    destruct (resolve r); cbn [List.length]; lia.
Qed.

(** X15: a date given in nanoseconds, up to the second 10^12, converts to
    the same value as its whole seconds given in seconds, whatever its
    sub-second part. *)
Theorem ts_unix_case_units (v n : Z) :
  1000 < v <= 1000000000000 -> 0 <= n < 1000000000 ->
  ts_unix_case (Some (v * 1000000000 + n)) = Some (v + 978307200)
  /\ ts_unix_case (Some v) = Some (v + 978307200).
Proof.
  intros Hv Hn. unfold ts_unix_case.
  destruct (Z.ltb_spec 1000000000000 (v * 1000000000 + n)) as [H|H]; [|lia].
  destruct (Z.ltb_spec 1000000000000 v) as [H'|H']; [lia|].
  destruct (Z.ltb_spec 0 v) as [H''|H'']; [|lia].
  split; [|reflexivity]. f_equal. f_equal.
  rewrite Z.quot_div_nonneg by lia.
  rewrite Z.div_add_l by lia. rewrite Z.div_small by lia. lia.
Qed.

(** X15, evaluated just before the next second. *)
Lemma ts_unix_case_units_witness :
  ts_unix_case (Some 1700000000999999999) = ts_unix_case (Some 1700000000).
Proof.
  destruct (ts_unix_case_units 1700000000 999999999) as [H1 H2]; [lia|lia|].
  etransitivity; [exact H1|symmetry; exact H2].
Defined.

(** X16: the conversion keeps the order of two dates that are both above
    10^12 (nanoseconds) or both at most 10^12 (seconds). *)
Theorem ts_unix_case_monotone (d1 d2 t1 t2 : Z) :
  d1 <= d2 ->
  (1000000000000 < d1 \/ d2 <= 1000000000000) ->
  ts_unix_case (Some d1) = Some t1 -> ts_unix_case (Some d2) = Some t2 ->
  t1 <= t2.
Proof.
  intros Hle Hunit. unfold ts_unix_case.
  destruct (Z.ltb_spec 1000000000000 d1) as [H1|H1];
    destruct (Z.ltb_spec 1000000000000 d2) as [H2|H2]; try lia.
  - intros E1 E2. injection E1 as <-. injection E2 as <-.
    rewrite !Z.quot_div_nonneg by lia.
    assert (d1 / 1000000000 <= d2 / 1000000000) by (apply Z.div_le_mono; lia).
    lia.
  - destruct (Z.ltb_spec 0 d1); [|discriminate].
    destruct (Z.ltb_spec 0 d2); [|discriminate].
    intros E1 E2. injection E1 as <-. injection E2 as <-. lia.
Qed.

(** X16, evaluated on two dates in nanoseconds. *)
Lemma ts_unix_case_monotone_witness :
  ts_unix_case (Some 700000000000000000) = Some 1678307200
  /\ ts_unix_case (Some 1700000000000000000) = Some 2678307200
  /\ 1678307200 <= 2678307200.
Proof.
  split; [reflexivity|]. split; [reflexivity|].
  apply (ts_unix_case_monotone 700000000000000000 1700000000000000000);
    [lia|left; lia|reflexivity|reflexivity].
Defined.
